(** * skillbridge: the socket channel of [skillbridge/client/channel.py]

    A shallow embedding of [Channel.decode_response] and of [TcpChannel]
    ([_send_only], [_receive_only], [_receive_all], [send], [try_repair],
    [close], [flush], [reconnect]) over a scripted transport, followed by
    the properties of the framing protocol and of its failure handling. *)

From Stdlib Require Import ZArith NArith List Bool Lia.
From Stdlib.Strings Require Import String Ascii Byte.
Import ListNotations.
Open Scope Z_scope.

(** ** Python values *)

(** [bytes] objects. *)
Definition bytes := list byte.

(** [str] objects: sequences of Unicode code points. *)
Definition char := N.
Definition str := list char.

(** A [str] literal written with ASCII characters only. *)
Definition lit (s : string) : str :=
  map N_of_ascii (list_ascii_of_string s).

(** A [bytes] literal, [b'...']. *)
Definition blit (s : string) : bytes := list_byte_of_string s.

(** [len(x)], a Python int. *)
Definition len {A : Type} (l : list A) : Z := Z.of_nat (List.length l).

Fixpoint str_eqb (a b : str) : bool :=
  match a, b with
  | [], [] => true
  | x :: a', y :: b' => N.eqb x y && str_eqb a' b'
  | _, _ => false
  end.

(** ** Exceptions and outcomes *)

(** The exception classes that occur in the channel.  [OSError] stands
    for the whole [OSError] family; [BrokenPipeError] is the subclass the
    source names next to it. *)
Inductive exn : Type :=
| BrokenPipeError
| OSError
| KeyboardInterrupt
| ValueError (msg : str)
| RuntimeError (msg : str)
| UnicodeEncodeError
| UnicodeDecodeError.

(** [except (BrokenPipeError, OSError)] *)
Definition is_OSError (e : exn) : bool :=
  match e with
  | BrokenPipeError | OSError => true
  | _ => false
  end.

(** [except KeyboardInterrupt] *)
Definition is_KeyboardInterrupt (e : exn) : bool :=
  match e with
  | KeyboardInterrupt => true
  | _ => false
  end.

(** [except Exception]: everything but [KeyboardInterrupt], which derives
    from [BaseException] only. *)
Definition is_Exception (e : exn) : bool :=
  match e with
  | KeyboardInterrupt => false
  | _ => true
  end.

(** How a call ends.  [Blocked] is a system call that never returns (a
    blocking [recv] on a silent peer); [OutOfFuel] is a loop that was
    still running when the iteration budget of the model ran out. *)
Inductive result (A : Type) : Type :=
| Return (a : A)
| Raise (e : exn)
| Blocked
| OutOfFuel.
Arguments Return {A} a.
Arguments Raise {A} e.
Arguments Blocked {A}.
Arguments OutOfFuel {A}.

(** ** Built-ins *)

Definition SPACE : char := 32%N.

(** [s.split(' ', maxsplit=1)]: the text before and after the first
    space, when there is one. *)
Fixpoint partition_space (s : str) : option (str * str) :=
  match s with
  | [] => None
  | c :: r =>
      if N.eqb c SPACE then Some ([], r)
      else match partition_space r with
           | Some (a, b) => Some (c :: a, b)
           | None => None
           end
  end.

Definition split1 (s : str) : list str :=
  match partition_space s with
  | Some (a, b) => [a; b]
  | None => [s]
  end.

(** Decimal digits of a non-negative int, most significant first. *)
Fixpoint digits_aux (fuel : nat) (n : Z) (acc : list Z) : list Z :=
  match fuel with
  | O => acc
  | S fuel' =>
      let acc' := (n mod 10) :: acc in
      if n <? 10 then acc' else digits_aux fuel' (n / 10) acc'
  end.

Definition digits (n : Z) : list Z :=
  digits_aux (S (Z.to_nat (Z.log2 n))) n [].

Definition digit_char (d : Z) : char := Z.to_N (48 + d).

(** [str(n)] *)
Definition str_of_int (n : Z) : str :=
  if n <? 0 then 45%N :: map digit_char (digits (- n))
  else map digit_char (digits n).

(** [f'{n:10}']: right-justified in a field of at least ten characters. *)
Definition format_10 (n : Z) : str :=
  let s := str_of_int n in
  repeat SPACE (10 - List.length s) ++ s.

Definition byte_of_N (n : N) : byte :=
  match Byte.of_N n with
  | Some b => b
  | None => x00
  end.

(** UTF-8 encoding of one code point; lone surrogates and values above
    U+10FFFF have none. *)
Definition encode_char (c : char) : option bytes :=
  (if c <? 0x80 then Some [byte_of_N c]
   else if c <? 0x800 then
     Some [byte_of_N (0xC0 + c / 64); byte_of_N (0x80 + c mod 64)]
   else if (0xD800 <=? c) && (c <? 0xE000) then None
   else if c <? 0x10000 then
     Some [byte_of_N (0xE0 + c / 4096); byte_of_N (0x80 + (c / 64) mod 64);
           byte_of_N (0x80 + c mod 64)]
   else if c <? 0x110000 then
     Some [byte_of_N (0xF0 + c / 262144); byte_of_N (0x80 + (c / 4096) mod 64);
           byte_of_N (0x80 + (c / 64) mod 64); byte_of_N (0x80 + c mod 64)]
   else None)%N.

(** [s.encode()] *)
Fixpoint encode (s : str) : result bytes :=
  match s with
  | [] => Return []
  | c :: r =>
      match encode_char c, encode r with
      | Some bs, Return rs => Return (bs ++ rs)
      | None, _ => Raise UnicodeEncodeError
      | _, other => other
      end
  end.

(** [b.decode()], strict UTF-8.  [pending] continuation bytes are still
    expected for the code point accumulated in [acc], which must reach
    [lo] to be in shortest form. *)
Fixpoint decode_from (pending : nat) (acc lo : N) (b : bytes) : result str :=
  match b with
  | [] => match pending with
          | O => Return []
          | S _ => Raise UnicodeDecodeError
          end
  | x :: r =>
      let v := Byte.to_N x in
      match pending with
      | O =>
          (if v <? 0x80 then
             match decode_from 0 0 0 r with
             | Return s => Return (v :: s)
             | other => other
             end
           else if (0xC2 <=? v) && (v <? 0xE0) then decode_from 1 (v - 0xC0) 0x80 r
           else if (0xE0 <=? v) && (v <? 0xF0) then decode_from 2 (v - 0xE0) 0x800 r
           else if (0xF0 <=? v) && (v <? 0xF5) then decode_from 3 (v - 0xF0) 0x10000 r
           else Raise UnicodeDecodeError)%N
      | S p =>
          (if (0x80 <=? v) && (v <? 0xC0) then
             let acc' := acc * 64 + (v - 0x80) in
             match p with
             | O =>
                 if (lo <=? acc') && (acc' <? 0x110000)
                    && negb ((0xD800 <=? acc') && (acc' <? 0xE000))
                 then match decode_from 0 0 0 r with
                      | Return s => Return (acc' :: s)
                      | other => other
                      end
                 else Raise UnicodeDecodeError
             | S _ => decode_from p acc' lo r
             end
           else Raise UnicodeDecodeError)%N
      end
  end.

Definition decode (b : bytes) : result str := decode_from 0 0 0 b.

(** The bytes [int] skips on both sides of a literal. *)
Definition is_space (b : byte) : bool :=
  let v := Byte.to_N b in
  (N.eqb v 32 || ((9 <=? v) && (v <=? 13)))%N.

Fixpoint lstrip (b : bytes) : bytes :=
  match b with
  | x :: r => if is_space x then lstrip r else b
  | [] => []
  end.

Definition strip (b : bytes) : bytes := rev (lstrip (rev (lstrip b))).

Definition digit_val (b : byte) : option Z :=
  let v := Z.of_N (Byte.to_N b) in
  if (48 <=? v) && (v <=? 57) then Some (v - 48) else None.

(** Digits with single underscores between them.  [acc] is the value read
    so far; [after_digit] tells whether the previous byte was a digit. *)
Fixpoint int_digits (acc : Z) (after_digit : bool) (b : bytes) : option Z :=
  match b with
  | [] => if after_digit then Some acc else None
  | x :: r =>
      match digit_val x with
      | Some d => int_digits (10 * acc + d) true r
      | None =>
          if Byte.eqb x "_"%byte && after_digit then int_digits acc false r
          else None
      end
  end.

Definition invalid_literal : exn :=
  ValueError (lit "invalid literal for int() with base 10").

(** [int(b)] for a [bytes] argument (the text of the offending literal,
    which Python appends to the message, is left out). *)
Definition int (b : bytes) : result Z :=
  let s := strip b in
  let unsigned (neg : bool) (ds : bytes) :=
    match int_digits 0 false ds with
    | Some n => Return (if neg then - n else n)
    | None => Raise invalid_literal
    end in
  match s with
  | x :: ds =>
      if Byte.eqb x "-"%byte then unsigned true ds
      else if Byte.eqb x "+"%byte then unsigned false ds
      else unsigned false s
  | [] => Raise invalid_literal
  end.

(** ** [Channel.decode_response] *)

Definition timeout_message : str :=
  lit "Timeout: you should restart the skill server and increase the timeout `pyStartServer ?timeout X`.".

Definition unpack_error : exn :=
  ValueError (lit "not enough values to unpack (expected 2, got 1)").

Definition decode_response (response : str) : result str :=
  match split1 response with
  | [status; response] =>
      if str_eqb status (lit "failure") then
        if str_eqb response (lit "<timeout>") then
          Raise (RuntimeError timeout_message)
        else Raise (RuntimeError response)
      else Return response
  | _ => Raise unpack_error
  end.

(** ** The transport

    The operating system and the peer are a scripted double: what the
    peer delivers, how each [sendall] and each [connect] ends, and a trace
    of every call the channel makes.  [settimeout] only bounds the time a
    [connect] may take and is not part of the model; a [connect] that
    times out is one that raises. *)

(** What the peer has in store for the reading side: bytes that arrive
    (never an empty batch), or an exception delivered to the pending
    [recv], such as a reset connection or the user's interrupt. *)
Inductive recv_event : Type :=
| RData (b : byte) (bs : bytes)
| RRaise (e : exn).

(** A socket object: its descriptor and whether [close()] was called. *)
Record Socket : Type := mkSocket {
  fileno : nat;
  closed : bool
}.

Inductive io_event : Type :=
| EvSend (fd : nat) (data : bytes)
| EvSendFailed (fd : nat) (data : bytes) (e : exn)
| EvRecv (fd : nat) (bufsize : Z) (data : bytes)
| EvRecvFailed (fd : nat) (bufsize : Z) (e : exn)
| EvRecvBlocked (fd : nat) (bufsize : Z)
| EvSelect (fd : nat) (readable : bool)
| EvClose (fd : nat)
| EvConnect (fd : nat)
| EvConnectFailed (fd : nat) (e : exn)
| EvPrint (text : str).

Record World : Type := mkWorld {
  incoming : list recv_event;
  (** once [incoming] is used up: has the peer closed the connection
      ([recv] returns [b'']) or is it silent ([recv] blocks)? *)
  peer_closed : bool;
  (** how the successive [sendall] calls end; [None] and a used-up
      script are success *)
  sendall_script : list (option exn);
  (** how the successive [connect] calls end *)
  connect_script : list (option exn);
  (** number of sockets created so far *)
  created : nat;
  trace : list io_event
}.

(** The fields of a [TcpChannel] object.  The address is fixed at
    construction and only handed to [connect], whose outcome the world
    decides. *)
Record TcpChannel : Type := mkTcpChannel {
  _max_transmission_length : Z;
  connected : bool;
  socket : Socket
}.

Record state : Type := mkState {
  self : TcpChannel;
  world : World
}.

Definition set_incoming (l : list recv_event) (w : World) : World :=
  mkWorld l (peer_closed w) (sendall_script w) (connect_script w)
          (created w) (trace w).

Definition set_sendall_script (l : list (option exn)) (w : World) : World :=
  mkWorld (incoming w) (peer_closed w) l (connect_script w)
          (created w) (trace w).

Definition set_connect_script (l : list (option exn)) (w : World) : World :=
  mkWorld (incoming w) (peer_closed w) (sendall_script w) l
          (created w) (trace w).

Definition set_created (n : nat) (w : World) : World :=
  mkWorld (incoming w) (peer_closed w) (sendall_script w) (connect_script w)
          n (trace w).

Definition log (ev : io_event) (w : World) : World :=
  mkWorld (incoming w) (peer_closed w) (sendall_script w) (connect_script w)
          (created w) (trace w ++ [ev]).

Definition set_connected (b : bool) (c : TcpChannel) : TcpChannel :=
  mkTcpChannel (_max_transmission_length c) b (socket c).

Definition set_socket (k : Socket) (c : TcpChannel) : TcpChannel :=
  mkTcpChannel (_max_transmission_length c) (connected c) k.

Definition set_max_transmission_length (v : Z) (c : TcpChannel) : TcpChannel :=
  mkTcpChannel v (connected c) (socket c).

(** ** Computations on a channel: state and exceptions *)

Definition M (A : Type) : Type := state -> result A * state.

Definition ret {A : Type} (a : A) : M A := fun s => (Return a, s).

Definition raise {A : Type} (e : exn) : M A := fun s => (Raise e, s).

Definition lift {A : Type} (r : result A) : M A := fun s => (r, s).

Definition bind {A B : Type} (m : M A) (k : A -> M B) : M B :=
  fun s =>
    match m s with
    | (Return a, s') => k a s'
    | (Raise e, s') => (Raise e, s')
    | (Blocked, s') => (Blocked, s')
    | (OutOfFuel, s') => (OutOfFuel, s')
    end.

Notation "x <- m ;; k" := (bind m (fun x => k))
  (at level 61, m at next level, right associativity).
Notation "m ;; k" := (bind m (fun _ => k))
  (at level 61, right associativity).

(** [try: m  except <classes>: handler] *)
Definition try_except {A : Type} (m : M A) (classes : exn -> bool)
    (handler : exn -> M A) : M A :=
  fun s =>
    match m s with
    | (Raise e, s') => if classes e then handler e s' else (Raise e, s')
    | other => other
    end.

Definition get_self : M TcpChannel := fun s => (Return (self s), s).

Definition modify_self (f : TcpChannel -> TcpChannel) : M unit :=
  fun s => (Return tt, mkState (f (self s)) (world s)).

Definition emit (ev : io_event) : M unit :=
  fun s => (Return tt, mkState (self s) (log ev (world s))).

(** [print(text)] *)
Definition print (text : str) : M unit := emit (EvPrint text).

(** ** Socket methods, on [self.socket] *)

Definition bad_file_descriptor : exn := OSError.

(** The batch [l], if any bytes are left of it. *)
Definition data_events (l : bytes) : list recv_event :=
  match l with
  | [] => []
  | b :: bs => [RData b bs]
  end.

(** [self.socket.sendall(data)]: the next entry of the script decides. *)
Definition sendall (data : bytes) : M unit :=
  fun s =>
    let fd := fileno (socket (self s)) in
    let w := world s in
    if closed (socket (self s)) then
      (Raise bad_file_descriptor,
       mkState (self s) (log (EvSendFailed fd data bad_file_descriptor) w))
    else
      let script := tl (sendall_script w) in
      match hd None (sendall_script w) with
      | Some e =>
          (Raise e,
           mkState (self s)
                   (log (EvSendFailed fd data e) (set_sendall_script script w)))
      | None =>
          (Return tt,
           mkState (self s) (log (EvSend fd data) (set_sendall_script script w)))
      end.

Definition negative_buffersize : exn :=
  ValueError (lit "negative buffersize in recv").

(** [self.socket.recv(bufsize)]: at most [bufsize] of the bytes that have
    arrived; the rest of the batch stays buffered.  [b''] when the peer
    has closed the connection. *)
Definition recv (bufsize : Z) : M bytes :=
  fun s =>
    let fd := fileno (socket (self s)) in
    let w := world s in
    if bufsize <? 0 then (Raise negative_buffersize, s)
    else if closed (socket (self s)) then
      (Raise bad_file_descriptor,
       mkState (self s) (log (EvRecvFailed fd bufsize bad_file_descriptor) w))
    else if bufsize =? 0 then
      (Return [], mkState (self s) (log (EvRecv fd bufsize []) w))
    else
      match incoming w with
      | RData b bs :: later =>
          let n := Z.to_nat bufsize in
          let data := firstn n (b :: bs) in
          (Return data,
           mkState (self s)
                   (log (EvRecv fd bufsize data)
                        (set_incoming (data_events (skipn n (b :: bs)) ++ later) w)))
      | RRaise e :: later =>
          (Raise e,
           mkState (self s)
                   (log (EvRecvFailed fd bufsize e) (set_incoming later w)))
      | [] =>
          if peer_closed w then
            (Return [], mkState (self s) (log (EvRecv fd bufsize []) w))
          else (Blocked, mkState (self s) (log (EvRecvBlocked fd bufsize) w))
      end.

(** [self.socket.close()] *)
Definition socket_close : M unit :=
  fun s =>
    let k := socket (self s) in
    if closed k then (Return tt, s)
    else (Return tt,
          mkState (set_socket (mkSocket (fileno k) true) (self s))
                  (log (EvClose (fileno k)) (world s))).



(** ** [TcpChannel] *)

(** [socket(self.address_family, self.socket_kind)] *)
Definition create_socket : M Socket :=
  fun s =>
    let w := world s in
    (Return (mkSocket (created w) false),
     mkState (self s) (set_created (S (created w)) w)).

Definition configure (_ : Socket) : M unit := ret tt.

(** [sock.connect(self.address)] *)
Definition socket_connect (sock : Socket) : M unit :=
  fun s =>
    let w := world s in
    let script := tl (connect_script w) in
    match hd None (connect_script w) with
    | Some e =>
        (Raise e,
         mkState (self s)
                 (log (EvConnectFailed (fileno sock) e) (set_connect_script script w)))
    | None =>
        (Return tt,
         mkState (self s) (log (EvConnect (fileno sock)) (set_connect_script script w)))
    end.

Definition connect (sock : Socket) : M Socket :=
  socket_connect sock ;;
  modify_self (set_connected true) ;;
  ret sock.

Definition start : M Socket :=
  sock <- create_socket ;;
  configure sock ;;
  connect sock.

Definition reconnect : M unit :=
  socket_close ;;
  sock <- start ;;
  modify_self (set_socket sock).

(** The generator [_receive_all], run to its end as [b''.join] does: the
    list of the chunks it yields.  [fuel] bounds the number of times the
    loop condition is tested. *)
Fixpoint _receive_all (fuel : nat) (remaining : Z) : M (list bytes) :=
  match fuel with
  | O => lift OutOfFuel
  | S fuel' =>
      if remaining =? 0 then ret []
      else
        data <- recv remaining ;;
        chunks <- _receive_all fuel' (remaining - len data) ;;
        ret (data :: chunks)
  end.

(** [b''.join(chunks)] *)
Definition join (chunks : list bytes) : bytes := List.concat chunks.

Definition exceeds_message (got should : Z) : str :=
  lit "Data exceeds max transmission length " ++ str_of_int got
  ++ lit " > " ++ str_of_int should.

Definition attempting : str := lit "attempting to reconnect".

Definition _send_only (data : str) : M unit :=
  byte <- lift (encode data) ;;
  c <- get_self ;;
  if len byte >? _max_transmission_length c then
    let got := len byte in
    let should := _max_transmission_length c in
    raise (ValueError (exceeds_message got should))
  else
    length <- lift (encode (format_10 (len byte))) ;;
    try_except (sendall length) is_OSError
      (fun _ => print attempting ;; reconnect ;; sendall length) ;;
    try_except (sendall byte) is_OSError
      (fun _ => print attempting ;; reconnect ;; sendall length ;; sendall byte).

Definition receive_aborted : str :=
  lit "Receive aborted, you should restart the skill server or call `ws.try_repair()` if you are sure that the response will arrive.".

Definition server_died : str := lit "The server unexpectedly died".

Definition _receive_only (fuel : nat) : M str :=
  received_length_raw <-
    try_except (recv 10) is_KeyboardInterrupt
      (fun _ => raise (RuntimeError receive_aborted)) ;;
  match received_length_raw with
  | [] => raise (RuntimeError server_died)
  | _ :: _ =>
      received_length <- lift (int received_length_raw) ;;
      chunks <- _receive_all fuel received_length ;;
      response <- lift (decode (join chunks)) ;;
      lift (decode_response response)
  end.

Definition send (fuel : nat) (data : str) : M str :=
  _send_only data ;;
  _receive_only fuel.

(** The two statements under [try] in [try_repair]. *)
Definition read_message (fuel : nat) : M bytes :=
  raw <- recv 10 ;;
  length <- lift (int raw) ;;
  chunks <- _receive_all fuel length ;;
  ret (join chunks).

(** [try_repair] returns the exception it caught ([inl]) or the text. *)
Definition try_repair (fuel : nat) : M (exn + str) :=
  r <- try_except (message <- read_message fuel ;; ret (inr message))
         is_Exception (fun e => ret (inl e)) ;;
  match r with
  | inl e => ret (inl e)
  | inr message => text <- lift (decode message) ;; ret (inr text)
  end.

Definition close_message : bytes := blit "         6$close".

Definition close : M unit :=
  c <- get_self ;;
  if connected c then
    sendall close_message ;;
    socket_close ;;
    modify_self (set_connected false)
  else ret tt.


(** [Channel.__del__]: [with suppress(Exception): self.close()] *)
Definition __del__ : M unit :=
  try_except close is_Exception (fun _ => ret tt).

(** [TcpChannel.__init__], on the world the channel is created in. *)
Definition __init__ (w : World) : result unit * state :=
  (sock <- start ;; modify_self (set_socket sock))
    (mkState (mkTcpChannel 1000000 false (mkSocket 0 true)) w).


(** A world in which nothing fails and the peer, still connected, has
    sent the given batches. *)
Definition quiet_world (batches : list bytes) : World :=
  mkWorld (flat_map data_events batches) false [] [] 0 [].

(** ** Notions used in the statements *)

(** A response is malformed, in the words of the specification, when it
    has no space separator or when its first space-delimited token is
    neither [success] nor [failure]. *)
Definition malformed (response : str) : Prop :=
  ~ In SPACE response \/
  exists status rest,
    response = status ++ SPACE :: rest /\ ~ In SPACE status /\
    status <> lit "success" /\ status <> lit "failure".

(** The value of a list of decimal digits, most significant first. *)
Definition num_of (ds : list Z) : Z :=
  fold_left (fun a d => 10 * a + d) ds 0.

Definition is_digit (d : Z) : Prop := 0 <= d <= 9.

Definition digit_byte (d : Z) : byte := byte_of_N (digit_char d).

(** The bytes of the length field of a frame of [n] bytes. *)
Definition length_field (n : Z) : bytes := map byte_of_N (format_10 n).

(** A payload of 10^10 bytes. *)
Definition huge_payload : bytes := repeat "a"%byte (Z.to_nat 10000000000).




(** ** Strings *)

Lemma str_eqb_eq (a b : str) : str_eqb a b = true <-> a = b.
Proof.
  revert b; induction a as [|x a IH]; intros [|y b]; simpl;
    try (split; [discriminate | discriminate]); try tauto.
  rewrite andb_true_iff, N.eqb_eq, IH.
  split; [intros [-> ->]; reflexivity | intros H; inversion H; auto].
Qed.

Lemma str_eqb_neq (a b : str) : a <> b -> str_eqb a b = false.
Proof.
  intros H; destruct (str_eqb a b) eqn:E; [|reflexivity].
  apply str_eqb_eq in E; contradiction.
Qed.

Lemma partition_space_none (r : str) :
  ~ In SPACE r -> partition_space r = None.
Proof.
  induction r as [|c r IH]; simpl; intros H; [reflexivity|].
  destruct (N.eqb_spec c SPACE) as [->|_]; [exfalso; auto|].
  rewrite IH; auto.
Qed.

Lemma partition_space_app (a b : str) :
  ~ In SPACE a -> partition_space (a ++ SPACE :: b) = Some (a, b).
Proof.
  induction a as [|c a IH]; simpl; intros H; [reflexivity|].
  destruct (N.eqb_spec c SPACE) as [->|_]; [exfalso; auto|].
  rewrite IH; auto.
Qed.

Lemma decode_response_app (status rest : str) :
  ~ In SPACE status ->
  decode_response (status ++ SPACE :: rest) =
    if str_eqb status (lit "failure") then
      if str_eqb rest (lit "<timeout>") then Raise (RuntimeError timeout_message)
      else Raise (RuntimeError rest)
    else Return rest.
Proof.
  intros H; unfold decode_response, split1.
  rewrite partition_space_app by exact H; reflexivity.
Qed.


(** C3, as stated, fails: a response with an unrecognized status is
    returned like a success value. *)
Lemma decode_response_unknown_status_counterexample :
  malformed (lit "foo bar") /\
  decode_response (lit "foo bar") = Return (lit "bar").
Proof.
  split; [|reflexivity].
  right; exists (lit "foo"), (lit "bar"); repeat split;
    try discriminate.
  cbv; intuition discriminate.
Qed.

(** C3 (amended): a response without a space separator raises the
    [ValueError] of the failed unpacking, which is not the [RuntimeError]
    of a remote failure; a response whose first token is anything but
    [failure], recognized or not, returns the text after the first
    space. *)
Theorem decode_response_malformed (response status rest : str) :
  (~ In SPACE response ->
   decode_response response = Raise unpack_error /\
   forall msg, unpack_error <> RuntimeError msg) /\
  (~ In SPACE status -> status <> lit "failure" ->
   decode_response (status ++ SPACE :: rest) = Return rest).
Proof.
  split.
  - intros H; split; [|discriminate].
    unfold decode_response, split1.
    rewrite partition_space_none by exact H; reflexivity.
  - intros H Hne. rewrite decode_response_app by exact H.
    rewrite str_eqb_neq by exact Hne; reflexivity.
Qed.

Lemma decode_response_malformed_witness :
  decode_response (lit "garbage") = Raise unpack_error /\
  decode_response (lit "foo" ++ SPACE :: lit "bar baz") = Return (lit "bar baz").
Proof.
  destruct (decode_response_malformed (lit "garbage") (lit "foo") (lit "bar baz"))
    as [H1 H2].
  split.
  - apply H1. cbv; intuition discriminate.
  - apply H2; [cbv; intuition discriminate | discriminate].
Defined.

(** C8: split on the first space only, [success] returns the rest
    unchanged, [failure <timeout>] raises the error that tells to
    increase the server's timeout, and any other [failure] raises an
    error whose message is the rest, verbatim. *)
Theorem decode_response_status (rest : str) :
  decode_response (lit "success" ++ SPACE :: rest) = Return rest /\
  decode_response (lit "failure" ++ SPACE :: lit "<timeout>")
    = Raise (RuntimeError timeout_message) /\
  (rest <> lit "<timeout>" ->
   decode_response (lit "failure" ++ SPACE :: rest) = Raise (RuntimeError rest)).
Proof.
  split; [|split].
  - rewrite decode_response_app by (cbv; intuition discriminate). reflexivity.
  - reflexivity.
  - intros H. rewrite decode_response_app by (cbv; intuition discriminate).
    simpl (str_eqb (lit "failure") (lit "failure")). cbv iota.
    rewrite str_eqb_neq by exact H; reflexivity.
Qed.

Lemma decode_response_status_witness :
  decode_response (lit "failure disk full") = Raise (RuntimeError (lit "disk full")).
Proof.
  apply (decode_response_status (lit "disk full")). discriminate.
Defined.

(** ** The ten-character length field *)


Lemma fold_num_app (ds : list Z) (a d : Z) :
  fold_left (fun a d => 10 * a + d) (ds ++ [d]) a
  = 10 * fold_left (fun a d => 10 * a + d) ds a + d.
Proof. rewrite fold_left_app; reflexivity. Qed.

Lemma digits_aux_S (fuel : nat) (n : Z) (acc : list Z) :
  digits_aux (S fuel) n acc
  = if n <? 10 then n mod 10 :: acc
    else digits_aux fuel (n / 10) (n mod 10 :: acc).
Proof. reflexivity. Qed.

Lemma digits_aux_spec (fuel : nat) :
  forall n acc, 0 <= n < 2 ^ Z.of_nat (S fuel) ->
  exists D, digits_aux (S fuel) n acc = D ++ acc /\ Forall is_digit D /\
            num_of D = n /\ (0 < len D) /\ n < 10 ^ len D /\
            (len D = 1 \/ 10 ^ (len D - 1) <= n).
Proof.
  induction fuel as [|fuel IH]; intros n acc Hn.
  - exists [n mod 10]. change (2 ^ Z.of_nat 1) with 2 in Hn.
    simpl. destruct (Z.ltb_spec n 10); [|lia].
    rewrite Z.mod_small by lia.
    repeat split; auto; try (unfold len; simpl; lia).
    constructor; [unfold is_digit; lia | constructor].
  - rewrite digits_aux_S. destruct (Z.ltb_spec n 10) as [Hlt|Hge].
    + exists [n mod 10]. rewrite Z.mod_small by lia.
      repeat split; auto; try (unfold len; simpl; lia).
      constructor; [unfold is_digit; lia | constructor].
    + assert (Hq : 0 <= n / 10 < 2 ^ Z.of_nat (S fuel)).
      { split; [apply Z.div_pos; lia|].
        apply Z.div_lt_upper_bound; [lia|].
        rewrite (Nat2Z.inj_succ (S fuel)), Z.pow_succ_r in Hn by lia. lia. }
      destruct (IH (n / 10) (n mod 10 :: acc) Hq)
        as (D & HD & Hall & Hnum & Hpos & Hub & Hlb).
      exists (D ++ [n mod 10]).
      assert (Hlen : len (D ++ [n mod 10]) = len D + 1).
      { unfold len. rewrite length_app. simpl. lia. }
      split; [rewrite HD, <- app_assoc; reflexivity|].
      split; [apply Forall_app; split; auto; constructor; auto;
              unfold is_digit; pose proof (Z.mod_pos_bound n 10); lia|].
      split; [unfold num_of in *; rewrite fold_num_app, Hnum;
              pose proof (Z.div_mod n 10); lia|].
      rewrite Hlen. split; [lia|].
      replace (len D + 1 - 1) with (len D) by lia.
      rewrite Z.pow_add_r, Z.pow_1_r by lia.
      pose proof (Z.div_mod n 10) as Hdm.
      pose proof (Z.mod_pos_bound n 10) as Hm.
      split; [lia|]. right.
      destruct Hlb as [H1|Hlb].
      * rewrite H1. change (10 ^ 1) with 10. lia.
      * replace (len D) with (len D - 1 + 1) by lia.
        rewrite Z.pow_add_r, Z.pow_1_r by lia. lia.
Qed.

Lemma digits_spec (n : Z) :
  0 <= n ->
  exists D, digits n = D /\ Forall is_digit D /\ num_of D = n /\ 0 < len D /\
            n < 10 ^ len D /\ (len D = 1 \/ 10 ^ (len D - 1) <= n).
Proof.
  intros Hn. unfold digits.
  destruct (digits_aux_spec (Z.to_nat (Z.log2 n)) n []) as (D & HD & H).
  - split; [lia|]. rewrite Nat2Z.inj_succ, Z2Nat.id by apply Z.log2_nonneg.
    destruct (Z.eq_dec n 0) as [->|]; [reflexivity|].
    apply Z.log2_spec; lia.
  - exists D. rewrite HD, app_nil_r. auto.
Qed.

Lemma is_digit_cases (d : Z) :
  is_digit d -> In d [0; 1; 2; 3; 4; 5; 6; 7; 8; 9].
Proof. unfold is_digit; simpl; lia. Qed.

Ltac by_digit H :=
  apply is_digit_cases in H; simpl in H;
  repeat (destruct H as [<-|H]; [reflexivity|]); contradiction.

Lemma digit_val_digit_byte (d : Z) :
  is_digit d -> digit_val (digit_byte d) = Some d.
Proof. intros H; by_digit H. Qed.

Lemma is_space_digit_byte (d : Z) :
  is_digit d -> is_space (digit_byte d) = false.
Proof. intros H; by_digit H. Qed.

Lemma digit_byte_not_sign (d : Z) :
  is_digit d ->
  Byte.eqb (digit_byte d) "-"%byte = false /\
  Byte.eqb (digit_byte d) "+"%byte = false.
Proof. intros H; split; by_digit H. Qed.

Lemma digit_char_ascii (d : Z) : is_digit d -> (digit_char d < 128)%N.
Proof. unfold is_digit, digit_char; lia. Qed.

Lemma encode_ascii (s : str) :
  Forall (fun c => (c < 128)%N) s -> encode s = Return (map byte_of_N s).
Proof.
  induction 1 as [|c s Hc _ IH]; [reflexivity|].
  cbn [encode map]. rewrite IH. unfold encode_char.
  apply N.ltb_lt in Hc; rewrite Hc. reflexivity.
Qed.


Lemma length_field_digits (n : Z) :
  0 <= n ->
  length_field n
  = repeat " "%byte (10 - List.length (digits n)) ++ map digit_byte (digits n).
Proof.
  intros Hn. unfold length_field, format_10, str_of_int.
  destruct (Z.ltb_spec n 0); [lia|].
  rewrite map_app, map_map, length_map, map_repeat. reflexivity.
Qed.

Lemma encode_format_10 (n : Z) :
  0 <= n -> encode (format_10 n) = Return (length_field n).
Proof.
  intros Hn. apply encode_ascii.
  unfold format_10, str_of_int. destruct (Z.ltb_spec n 0); [lia|].
  destruct (digits_spec n Hn) as (D & -> & Hall & _).
  apply Forall_app; split.
  - apply Forall_forall. intros c Hc. apply repeat_spec in Hc. subst c.
    reflexivity.
  - apply Forall_map. eapply Forall_impl; [|exact Hall].
    intros d Hd. apply digit_char_ascii; exact Hd.
Qed.

Lemma int_digits_digit_bytes (D : list Z) :
  Forall is_digit D ->
  forall acc b, D <> [] \/ b = true ->
  int_digits acc b (map digit_byte D)
  = Some (fold_left (fun a d => 10 * a + d) D acc).
Proof.
  induction 1 as [|d D Hd _ IH]; intros acc b Hb.
  - destruct Hb as [Hb| ->]; [contradiction | reflexivity].
  - cbn [map int_digits fold_left]. rewrite digit_val_digit_byte by exact Hd.
    apply IH. right; reflexivity.
Qed.

Lemma lstrip_spaces (k : nat) (b : bytes) :
  lstrip (repeat " "%byte k ++ b) = lstrip b.
Proof. induction k as [|k IH]; [reflexivity | exact IH]. Qed.

Lemma lstrip_digit_bytes (D : list Z) (b : bytes) :
  Forall is_digit D -> D <> [] ->
  lstrip (map digit_byte D ++ b) = map digit_byte D ++ b.
Proof.
  intros Hall Hne. destruct Hall as [|d D Hd _]; [contradiction|].
  cbn [map app lstrip]. rewrite is_space_digit_byte by exact Hd. reflexivity.
Qed.

Lemma strip_length_field (k : nat) (D : list Z) :
  Forall is_digit D -> D <> [] ->
  strip (repeat " "%byte k ++ map digit_byte D) = map digit_byte D.
Proof.
  intros Hall Hne. unfold strip.
  rewrite lstrip_spaces.
  rewrite <- (app_nil_r (map digit_byte D)) at 1.
  rewrite lstrip_digit_bytes, app_nil_r by assumption.
  rewrite <- map_rev.
  rewrite <- (app_nil_r (map digit_byte (rev D))).
  rewrite lstrip_digit_bytes, app_nil_r.
  - rewrite map_rev, rev_involutive; reflexivity.
  - apply Forall_rev; exact Hall.
  - intros E. apply (f_equal (@rev Z)) in E. rewrite rev_involutive in E.
    contradiction.
Qed.

Lemma int_length_field (n : Z) : 0 <= n -> int (length_field n) = Return n.
Proof.
  intros Hn. rewrite length_field_digits by exact Hn.
  destruct (digits_spec n Hn) as (D & -> & Hall & Hnum & Hpos & _).
  assert (Hne : D <> []) by (intros ->; unfold len in Hpos; simpl in Hpos; lia).
  unfold int. rewrite strip_length_field by assumption.
  destruct D as [|d D]; [contradiction|].
  pose proof (Forall_inv Hall) as Hd.
  destruct (digit_byte_not_sign d Hd) as [Hm Hp].
  cbn [map]. rewrite Hm, Hp.
  change (digit_byte d :: map digit_byte D) with (map digit_byte (d :: D)).
  rewrite int_digits_digit_bytes by (auto; left; discriminate).
  unfold num_of in Hnum. rewrite Hnum. reflexivity.
Qed.

Lemma length_length_field (n : Z) :
  0 <= n -> len (length_field n) = Z.max 10 (len (digits n)).
Proof.
  intros Hn. rewrite length_field_digits by exact Hn.
  unfold len. rewrite length_app, repeat_length, length_map. lia.
Qed.

Lemma len_length_field (n : Z) :
  0 <= n < 10000000000 -> len (length_field n) = 10.
Proof.
  intros [Hn Hlt]. rewrite length_length_field by exact Hn.
  destruct (digits_spec n Hn) as (D & -> & _ & _ & Hpos & _ & Hlb).
  destruct Hlb as [H1|Hlb]; [lia|].
  destruct (Z.le_gt_cases (len D) 10) as [|Hbig]; [lia|].
  assert (10 ^ 10 <= 10 ^ (len D - 1)) by (apply Z.pow_le_mono_r; lia).
  change (10 ^ 10) with 10000000000 in *. lia.
Qed.

(** ** Sequencing *)

Lemma bind_Return {A B : Type} (m : M A) (k : A -> M B) (s s' : state) (a : A) :
  m s = (Return a, s') -> bind m k s = k a s'.
Proof. unfold bind; intros ->; reflexivity. Qed.


Lemma bind_inv_Return {A B : Type} (m : M A) (k : A -> M B) (s s' : state) (b : B) :
  bind m k s = (Return b, s') ->
  exists a s1, m s = (Return a, s1) /\ k a s1 = (Return b, s').
Proof.
  unfold bind. destruct (m s) as [[a|e| |] s1]; try discriminate.
  intros H; exists a, s1; auto.
Qed.

(** ** [recv] *)

Lemma recv_data (n : Z) (s : state) (b : byte) (bs : bytes) (later : list recv_event) :
  closed (socket (self s)) = false -> 0 < n ->
  incoming (world s) = RData b bs :: later ->
  recv n s =
    (Return (firstn (Z.to_nat n) (b :: bs)),
     mkState (self s)
       (log (EvRecv (fileno (socket (self s))) n (firstn (Z.to_nat n) (b :: bs)))
          (set_incoming (data_events (skipn (Z.to_nat n) (b :: bs)) ++ later)
             (world s)))).
Proof.
  intros Ho Hn Hi. unfold recv. rewrite Ho, Hi.
  destruct (Z.ltb_spec n 0); [lia|]. destruct (Z.eqb_spec n 0); [lia|].
  reflexivity.
Qed.

Lemma recv_raise (n : Z) (s : state) (e : exn) (later : list recv_event) :
  closed (socket (self s)) = false -> 0 < n ->
  incoming (world s) = RRaise e :: later ->
  recv n s =
    (Raise e,
     mkState (self s)
       (log (EvRecvFailed (fileno (socket (self s))) n e)
          (set_incoming later (world s)))).
Proof.
  intros Ho Hn Hi. unfold recv. rewrite Ho, Hi.
  destruct (Z.ltb_spec n 0); [lia|]. destruct (Z.eqb_spec n 0); [lia|].
  reflexivity.
Qed.

Lemma recv_eof (n : Z) (s : state) :
  closed (socket (self s)) = false -> 0 < n ->
  incoming (world s) = [] -> peer_closed (world s) = true ->
  recv n s =
    (Return [],
     mkState (self s) (log (EvRecv (fileno (socket (self s))) n []) (world s))).
Proof.
  intros Ho Hn Hi Hp. unfold recv. rewrite Ho, Hi, Hp.
  destruct (Z.ltb_spec n 0); [lia|]. destruct (Z.eqb_spec n 0); [lia|].
  reflexivity.
Qed.



(** ** The accumulation loop *)

Lemma _receive_all_S (fuel : nat) (remaining : Z) :
  _receive_all (S fuel) remaining =
    if remaining =? 0 then ret []
    else data <- recv remaining ;;
         chunks <- _receive_all fuel (remaining - len data) ;;
         ret (data :: chunks).
Proof. reflexivity. Qed.

Lemma len_app {A : Type} (a b : list A) : len (a ++ b) = len a + len b.
Proof. unfold len; rewrite length_app; lia. Qed.

(** When the loop ends, the chunks it yielded add up to the requested
    number of bytes. *)
Lemma _receive_all_total (fuel : nat) :
  forall remaining s chunks s',
  _receive_all fuel remaining s = (Return chunks, s') ->
  len (join chunks) = remaining.
Proof.
  induction fuel as [|fuel IH]; intros n s chunks s' H; [discriminate|].
  rewrite _receive_all_S in H.
  destruct (Z.eqb_spec n 0) as [->|Hn].
  - inversion H; reflexivity.
  - apply bind_inv_Return in H. destruct H as (data & s1 & _ & H).
    apply bind_inv_Return in H. destruct H as (rest & s2 & Hrec & H).
    inversion H; subst. apply IH in Hrec.
    unfold join in *. cbn [List.concat]. rewrite len_app, Hrec. lia.
Qed.

(** At the end of the stream the loop spins: each [recv] returns [b''],
    [remaining] stays what it was, and no budget is enough. *)
Lemma _receive_all_eof (fuel : nat) :
  forall remaining s,
  closed (socket (self s)) = false -> 0 < remaining ->
  incoming (world s) = [] -> peer_closed (world s) = true ->
  fst (_receive_all fuel remaining s) = OutOfFuel.
Proof.
  induction fuel as [|fuel IH]; intros n s Ho Hn Hi Hp; [reflexivity|].
  rewrite _receive_all_S. destruct (Z.eqb_spec n 0); [lia|].
  unfold bind at 1. rewrite recv_eof by assumption.
  change (len (@nil byte)) with 0. rewrite Z.sub_0_r.
  unfold bind.
  match goal with |- context [_receive_all fuel n ?s1] =>
    specialize (IH n s1 Ho Hn Hi Hp); destruct (_receive_all fuel n s1) as [r s2]
  end.
  simpl in IH. subst r. reflexivity.
Qed.

(** When the bytes are there, the loop ends with exactly the first
    [remaining] of them and leaves the others buffered. *)
Lemma _receive_all_supplied (batches : list bytes) :
  forall fuel remaining s later,
  closed (socket (self s)) = false ->
  incoming (world s) = flat_map data_events batches ++ later ->
  0 <= remaining <= len (List.concat batches) ->
  (List.length batches < fuel)%nat ->
  exists chunks s' batches',
    _receive_all fuel remaining s = (Return chunks, s') /\
    join chunks = firstn (Z.to_nat remaining) (List.concat batches) /\
    self s' = self s /\
    incoming (world s') = flat_map data_events batches' ++ later /\
    List.concat batches' = skipn (Z.to_nat remaining) (List.concat batches) /\
    peer_closed (world s') = peer_closed (world s).
Proof.
  induction batches as [|b bs IH]; intros fuel n s later Ho Hi Hn Hf.
  - destruct fuel as [|fuel]; [lia|].
    change (len (List.concat [])) with 0 in Hn. assert (n = 0) by lia; subst n.
    exists [], s, []. repeat split; auto.
  - destruct fuel as [|fuel]; [simpl in Hf; lia|].
    rewrite _receive_all_S. destruct (Z.eqb_spec n 0) as [->|Hn0].
    { exists [], s, (b :: bs). repeat split; auto. }
    destruct b as [|x xs].
    { destruct (IH (S fuel) n s later Ho Hi Hn ltac:(simpl in Hf; lia))
        as (chunks & s' & bs' & Hrun & H).
      rewrite _receive_all_S in Hrun.
      destruct (Z.eqb_spec n 0); [lia|].
      exists chunks, s', bs'. split; [exact Hrun | exact H]. }
    cbn [flat_map data_events app] in Hi.
    assert (Hpos : 0 < n) by lia.
    rewrite (bind_Return _ _ _ _ _ (recv_data n s x xs _ Ho Hpos Hi)).
    set (b := x :: xs) in *.
    set (s1 := mkState _ _).
    cbn [List.concat] in Hn. rewrite len_app in Hn.
    destruct (Z.le_gt_cases (len b) n) as [Hle|Hgt].
    + assert (Hfirst : firstn (Z.to_nat n) b = b)
        by (apply firstn_all2; unfold len in Hle; lia).
      assert (Hskip : skipn (Z.to_nat n) b = [])
        by (apply skipn_all2; unfold len in Hle; lia).
      rewrite Hfirst.
      destruct (IH fuel (n - len b) s1 later) as (chunks & s' & bs' & Hrun & Hj & Hs & Hin & Hc & Hp).
      * exact Ho.
      * subst s1; cbn. rewrite Hskip. reflexivity.
      * lia.
      * simpl in Hf; lia.
      * exists (b :: chunks), s', bs'.
        rewrite (bind_Return _ _ _ _ _ Hrun).
        split; [reflexivity|].
        assert (Hk : Z.to_nat n = (List.length b + Z.to_nat (n - len b))%nat)
          by (unfold len in *; lia).
        cbn [List.concat]. rewrite Hk.
        split; [unfold join in *; cbn [List.concat]; rewrite Hj;
                rewrite firstn_app_2; reflexivity|].
        split; [exact Hs|]. split; [exact Hin|].
        split; [rewrite Hc, skipn_app, (skipn_all2 b) by lia;
                replace (List.length b + Z.to_nat (n - len b) - List.length b)%nat
                  with (Z.to_nat (n - len b)) by lia; reflexivity | exact Hp].
    + assert (Hlen : len (firstn (Z.to_nat n) b) = n)
        by (unfold len in *; rewrite length_firstn; lia).
      rewrite Hlen, Z.sub_diag.
      destruct fuel as [|fuel]; [simpl in Hf; lia|].
      exists [firstn (Z.to_nat n) b], s1, (skipn (Z.to_nat n) b :: bs).
      split; [reflexivity|].
      cbn [List.concat].
      split; [unfold join; cbn [List.concat]; rewrite app_nil_r, firstn_app;
              replace (Z.to_nat n - List.length b)%nat with 0%nat
                by (unfold len in *; lia);
              rewrite firstn_O, app_nil_r; reflexivity|].
      split; [reflexivity|].
      split; [subst s1; cbn; rewrite <- app_assoc; reflexivity|].
      split; [rewrite skipn_app;
              replace (Z.to_nat n - List.length b)%nat with 0%nat
                by (unfold len in *; lia); reflexivity | reflexivity].
Qed.

(** ** [sendall] and the writing side *)

Lemma sendall_ok (data : bytes) (s : state) :
  closed (socket (self s)) = false ->
  hd None (sendall_script (world s)) = None ->
  sendall data s =
    (Return tt,
     mkState (self s)
       (log (EvSend (fileno (socket (self s))) data)
          (set_sendall_script (tl (sendall_script (world s))) (world s)))).
Proof. intros Ho Hs. unfold sendall. rewrite Ho, Hs. reflexivity. Qed.

Lemma sendall_fail (data : bytes) (s : state) (e : exn) :
  closed (socket (self s)) = false ->
  hd None (sendall_script (world s)) = Some e ->
  sendall data s =
    (Raise e,
     mkState (self s)
       (log (EvSendFailed (fileno (socket (self s))) data e)
          (set_sendall_script (tl (sendall_script (world s))) (world s)))).
Proof. intros Ho Hs. unfold sendall. rewrite Ho, Hs. reflexivity. Qed.

Lemma len_nonneg {A : Type} (l : list A) : 0 <= len l.
Proof. unfold len; lia. Qed.

(** The start of [_send_only]: encoding, the size check and the length
    field. *)
Lemma _send_only_unfold (data : str) (byte : bytes) (s : state) :
  encode data = Return byte ->
  len byte <= _max_transmission_length (self s) ->
  _send_only data s =
    (let length := length_field (len byte) in
     try_except (sendall length) is_OSError
       (fun _ => print attempting ;; reconnect ;; sendall length) ;;
     try_except (sendall byte) is_OSError
       (fun _ => print attempting ;; reconnect ;; sendall length ;; sendall byte)) s.
Proof.
  intros He Hl. unfold _send_only.
  unfold bind at 1, lift at 1. rewrite He.
  unfold bind at 1, get_self at 1.
  destruct (Z.gtb_spec (len byte) (_max_transmission_length (self s))); [lia|].
  unfold bind at 1, lift at 1.
  rewrite encode_format_10 by apply len_nonneg. reflexivity.
Qed.

Lemma _send_only_first_try (data : str) (byte : bytes) (s : state) :
  encode data = Return byte ->
  len byte <= _max_transmission_length (self s) ->
  closed (socket (self s)) = false ->
  hd None (sendall_script (world s)) = None ->
  hd None (tl (sendall_script (world s))) = None ->
  _send_only data s =
    (Return tt,
     mkState (self s)
       (log (EvSend (fileno (socket (self s))) byte)
          (set_sendall_script (tl (tl (sendall_script (world s))))
             (log (EvSend (fileno (socket (self s))) (length_field (len byte)))
                (set_sendall_script (tl (sendall_script (world s))) (world s)))))).
Proof.
  intros He Hl Ho H0 H1. rewrite (_send_only_unfold data byte) by assumption.
  cbv zeta. unfold bind at 1, try_except at 1.
  rewrite sendall_ok by assumption.
  unfold try_except. rewrite sendall_ok by assumption. reflexivity.
Qed.

(** ** The reading side *)

Lemma read_message_frame (byte x extra : bytes) (batches : list bytes)
    (later : list recv_event) (fuel : nat) (r : state) :
  0 <= len byte < 10000000000 ->
  closed (socket (self r)) = false ->
  incoming (world r)
    = flat_map data_events ((length_field (len byte) ++ x) :: batches) ++ later ->
  x ++ List.concat batches = byte ++ extra ->
  (S (List.length batches) < fuel)%nat ->
  exists r',
    read_message fuel r = (Return byte, r') /\
    self r' = self r /\
    exists batches',
      incoming (world r') = flat_map data_events batches' ++ later /\
      List.concat batches' = extra.
Proof.
  intros Hb Ho Hi Hx Hf.
  pose proof (len_length_field (len byte) Hb) as Hlen.
  pose proof (int_length_field (len byte) (proj1 Hb)) as Hint.
  remember (length_field (len byte)) as hdr eqn:Hhdr.
  destruct hdr as [|h hs]; [discriminate|].
  cbn [flat_map data_events app] in Hi.
  assert (Hfirst : firstn (Z.to_nat 10) ((h :: hs) ++ x) = h :: hs).
  { rewrite firstn_app, firstn_all2 by (unfold len in Hlen; lia).
    replace (Z.to_nat 10 - List.length (h :: hs))%nat with 0%nat
      by (unfold len in Hlen; lia).
    rewrite firstn_O, app_nil_r. reflexivity. }
  assert (Hskip : skipn (Z.to_nat 10) ((h :: hs) ++ x) = x).
  { rewrite skipn_app, skipn_all2 by (unfold len in Hlen; lia).
    replace (Z.to_nat 10 - List.length (h :: hs))%nat with 0%nat
      by (unfold len in Hlen; lia).
    reflexivity. }
  unfold read_message.
  rewrite (bind_Return _ _ _ _ _
             (recv_data 10 r h (hs ++ x) _ Ho ltac:(lia) Hi)).
  change (h :: hs ++ x) with ((h :: hs) ++ x). rewrite Hfirst, Hskip.
  unfold bind at 1, lift at 1. rewrite Hint.
  set (r1 := mkState _ _).
  destruct (_receive_all_supplied (x :: batches) fuel (len byte) r1 later)
    as (chunks & r' & bs' & Hrun & Hj & Hs & Hin & Hc & _).
  - exact Ho.
  - subst r1; cbn. rewrite <- app_assoc. reflexivity.
  - cbn [List.concat]. rewrite Hx, len_app. pose proof (len_nonneg extra). lia.
  - simpl; lia.
  - exists r'. rewrite (bind_Return _ _ _ _ _ Hrun).
    cbn [List.concat] in Hj, Hc. rewrite Hx in Hj, Hc.
    assert (Hk : Z.to_nat (len byte) = List.length byte) by (unfold len; lia).
    rewrite Hk in Hj, Hc.
    rewrite firstn_app, firstn_all, Nat.sub_diag, firstn_O, app_nil_r in Hj.
    rewrite skipn_app, skipn_all, Nat.sub_diag in Hc. cbn in Hc.
    unfold ret. rewrite Hj. split; [reflexivity|]. split; [exact Hs|].
    exists bs'. split; assumption.
Qed.

(** ** Frames *)

Lemma length_field_eleven : length_field 10000000000 = blit "10000000000".
Proof. vm_compute. reflexivity. Qed.

Lemma int_ten_of_eleven : int (blit "1000000000") = Return 1000000000.
Proof. vm_compute. reflexivity. Qed.

Lemma len_huge_payload : len huge_payload = 10000000000.
Proof.
  unfold huge_payload, len. rewrite repeat_length.
  rewrite Z2Nat.id; [reflexivity | discriminate].
Qed.

(** A payload of 10^10 bytes has an eleven-character length field, of
    which the reader takes ten. *)
Lemma read_message_eleven (byte : bytes) (c : TcpChannel) (fuel : nat) (r' : state) :
  len byte = 10000000000 ->
  closed (socket c) = false ->
  read_message fuel
    (mkState c (quiet_world [length_field (len byte) ++ byte]))
  <> (Return byte, r').
Proof.
  intros Hlen Ho H. rewrite Hlen, length_field_eleven in H.
  unfold read_message in H.
  apply bind_inv_Return in H. destruct H as (raw & s1 & Hrecv & H).
  rewrite (recv_data 10 _ "1"%byte (blit "0000000000" ++ byte) []) in Hrecv;
    [|exact Ho | lia | reflexivity].
  change (firstn (Z.to_nat 10) ("1"%byte :: blit "0000000000" ++ byte))
    with (blit "1000000000") in Hrecv.
  inversion Hrecv; subst raw. clear Hrecv.
  apply bind_inv_Return in H. destruct H as (n & s2 & Hint & H).
  unfold lift in Hint. rewrite int_ten_of_eleven in Hint.
  inversion Hint; subst n. clear Hint.
  apply bind_inv_Return in H. destruct H as (chunks & s3 & Hrun & H).
  apply _receive_all_total in Hrun.
  unfold ret in H. inversion H. rewrite H1 in Hrun. lia.
Qed.

(** C7, as stated, fails once a payload of 10^10 bytes is allowed: its
    length takes eleven characters, the reader parses the first ten and
    takes a tenth of the payload. *)
Lemma frame_roundtrip_counterexample :
  let max_transmission_length := 10000000000 in
  let channel := mkTcpChannel max_transmission_length true (mkSocket 0 false) in
  len huge_payload <= max_transmission_length /\
  encode (format_10 (len huge_payload)) = Return (blit "10000000000") /\
  forall fuel r',
    read_message fuel
      (mkState channel
         (quiet_world [length_field (len huge_payload) ++ huge_payload]))
    <> (Return huge_payload, r').
Proof.
  cbv zeta. split; [rewrite len_huge_payload; lia|].
  split.
  - rewrite encode_format_10 by apply len_nonneg.
    rewrite len_huge_payload, length_field_eleven. reflexivity.
  - intros fuel r'. apply read_message_eleven;
      [exact len_huge_payload | reflexivity].
Qed.

(** C7 (amended): for a payload within [max_transmission_length] and
    shorter than 10^10 bytes, [_send_only] writes the ten-byte length
    field and then the payload, and a reader that finds these bytes on
    its side, the length field whole in the first batch and the rest in
    batches of any size, reads back exactly the payload and leaves what
    follows it buffered. *)
Theorem frame_roundtrip (data : str) (byte x extra : bytes)
    (batches : list bytes) (later : list recv_event) (fuel : nat)
    (tx rx : state) :
  encode data = Return byte ->
  len byte <= _max_transmission_length (self tx) ->
  len byte < 10000000000 ->
  closed (socket (self tx)) = false ->
  hd None (sendall_script (world tx)) = None ->
  hd None (tl (sendall_script (world tx))) = None ->
  closed (socket (self rx)) = false ->
  incoming (world rx)
    = flat_map data_events ((length_field (len byte) ++ x) :: batches) ++ later ->
  x ++ List.concat batches = byte ++ extra ->
  (S (List.length batches) < fuel)%nat ->
  exists tx' rx' batches',
    _send_only data tx = (Return tt, tx') /\
    trace (world tx')
      = trace (world tx)
        ++ [EvSend (fileno (socket (self tx))) (length_field (len byte));
            EvSend (fileno (socket (self tx))) byte] /\
    len (length_field (len byte)) = 10 /\
    int (length_field (len byte)) = Return (len byte) /\
    read_message fuel rx = (Return byte, rx') /\
    incoming (world rx') = flat_map data_events batches' ++ later /\
    List.concat batches' = extra.
Proof.
  intros He Hl Hb Ho H0 H1 Hro Hi Hx Hf.
  assert (Hrange : 0 <= len byte < 10000000000)
    by (pose proof (len_nonneg byte); lia).
  destruct (read_message_frame byte x extra batches later fuel rx
              Hrange Hro Hi Hx Hf) as (rx' & Hread & _ & bs' & Hin & Hc).
  eexists; exists rx', bs'.
  split; [apply _send_only_first_try; eassumption|].
  split; [cbn; rewrite <- app_assoc; reflexivity|].
  split; [apply len_length_field; exact Hrange|].
  split; [apply int_length_field; lia|].
  auto.
Qed.

Lemma frame_roundtrip_witness :
  exists tx' rx',
    _send_only (lit "hello") (snd (__init__ (quiet_world []))) = (Return tt, tx') /\
    trace (world tx')
      = [EvConnect 0; EvSend 0 (blit "         5"); EvSend 0 (blit "hello")] /\
    read_message 4
      (snd (__init__ (quiet_world [blit "         5hel"; blit "lo"; blit "  "])))
    = (Return (blit "hello"), rx').
Proof.
  destruct (frame_roundtrip (lit "hello") (blit "hello") (blit "hel") (blit "  ")
              [blit "lo"; blit "  "] [] 4%nat
              (snd (__init__ (quiet_world [])))
              (snd (__init__ (quiet_world [blit "         5hel"; blit "lo"; blit "  "]))))
    as (tx' & rx' & bs' & Hsend & Htrace & _ & _ & Hread & _);
    try reflexivity; try (vm_compute; congruence); try (simpl; lia).
  exists tx', rx'. split; [exact Hsend|]. split; [exact Htrace | exact Hread].
Defined.

(** C10: the accumulation loop ends exactly when the reads have supplied
    [remaining] bytes in total: if it ends, the chunks add up to
    [remaining]; if the bytes are there, it ends with them.  At the end of
    the stream with bytes outstanding, [recv] returns [b''], [remaining]
    is not decremented, nothing is raised, and the loop is still running
    whatever the budget. *)
Theorem _receive_all_termination (fuel : nat) (remaining : Z) (s : state) :
  (forall chunks s',
     _receive_all fuel remaining s = (Return chunks, s') ->
     len (join chunks) = remaining) /\
  (forall batches later,
     closed (socket (self s)) = false ->
     incoming (world s) = flat_map data_events batches ++ later ->
     0 <= remaining <= len (List.concat batches) ->
     (List.length batches < fuel)%nat ->
     exists chunks s',
       _receive_all fuel remaining s = (Return chunks, s') /\
       join chunks = firstn (Z.to_nat remaining) (List.concat batches)) /\
  (closed (socket (self s)) = false -> 0 < remaining ->
   incoming (world s) = [] -> peer_closed (world s) = true ->
   fst (_receive_all fuel remaining s) = OutOfFuel /\
   exists data s1,
     recv remaining s = (Return data, s1) /\ data = [] /\
     remaining - len data = remaining /\
     incoming (world s1) = [] /\ peer_closed (world s1) = true).
Proof.
  split; [|split].
  - intros chunks s'. apply _receive_all_total.
  - intros batches later Ho Hi Hn Hf.
    destruct (_receive_all_supplied batches fuel remaining s later Ho Hi Hn Hf)
      as (chunks & s' & _ & Hrun & Hj & _).
    exists chunks, s'. split; assumption.
  - intros Ho Hn Hi Hp. split; [apply _receive_all_eof; assumption|].
    eexists; eexists. split; [apply recv_eof; assumption|].
    split; [reflexivity|]. split; [change (len (@nil byte)) with 0; lia|].
    split; assumption.
Qed.

Lemma _receive_all_termination_witness :
  fst (_receive_all 1000 5
         (snd (__init__ (mkWorld [] true [] [] 0 [])))) = OutOfFuel /\
  exists chunks s',
    _receive_all 3 5 (snd (__init__ (quiet_world [blit "ab"; blit "cdefg"])))
    = (Return chunks, s') /\
    join chunks = blit "abcde".
Proof.
  split.
  - apply (_receive_all_termination 1000 5
             (snd (__init__ (mkWorld [] true [] [] 0 []))));
      [reflexivity | lia | reflexivity | reflexivity].
  - apply (proj1 (proj2 (_receive_all_termination 3 5
             (snd (__init__ (quiet_world [blit "ab"; blit "cdefg"])))))
             [blit "ab"; blit "cdefg"] []);
      [reflexivity | reflexivity | vm_compute; split; discriminate | simpl; lia].
Defined.

(** C6: a payload whose encoding is longer than
    [max_transmission_length] makes [send] raise a [ValueError] whose
    message gives the actual and the allowed size, and the channel and
    the transport are as they were: nothing was written. *)
Theorem send_oversized (fuel : nat) (data : str) (byte : bytes) (s : state) :
  encode data = Return byte ->
  len byte > _max_transmission_length (self s) ->
  send fuel data s =
    (Raise (ValueError
              (lit "Data exceeds max transmission length " ++ str_of_int (len byte)
               ++ lit " > " ++ str_of_int (_max_transmission_length (self s)))),
     s).
Proof.
  intros He Hl. unfold send, _send_only.
  unfold bind at 1. unfold bind at 1, lift at 1. rewrite He.
  unfold bind at 1, get_self at 1.
  destruct (Z.gtb_spec (len byte) (_max_transmission_length (self s))); [|lia].
  reflexivity.
Qed.

Lemma send_oversized_witness :
  let s := mkState (mkTcpChannel 3 true (mkSocket 0 false)) (quiet_world []) in
  send 1 (lit "hello") s =
    (Raise (ValueError (lit "Data exceeds max transmission length 5 > 3")), s).
Proof.
  exact (send_oversized 1 (lit "hello") (blit "hello")
           (mkState (mkTcpChannel 3 true (mkSocket 0 false)) (quiet_world []))
           eq_refl eq_refl).
Defined.

(** ** [_receive_only] and [send] *)







(** ** Reconnecting *)








(** ** Counting the reconnects *)























(** ** [close] *)



(** ** [flush] *)







